(** * idmanager: a table of values keyed by [uint16], with key reservation

    Shallow embedding of [pkg/app2/idmanager/manager.go].

    - a [uint16] is a [Z] in [0, 65536); the increment [nxtID++] wraps
      around and is written out as [wrap16 (nxtID + 1)];
    - an [interface{}] is an [option V]: [None] is Go's [nil], [Some v] any
      non-nil value;
    - [map[uint16]interface{}] is a [gmap Z (option V)], so a lookup yields
      [None] (no entry), [Some None] (entry holding [nil]) or
      [Some (Some v)];
    - every method runs under the manager's mutex from its first to its last
      access of the fields, so a method is one atomic state transformer
      [Manager -> Manager * result];
    - the closure built by [constructFreeFunc] captures the manager pointer
      and the id; here it is a function [Manager -> Manager] applied to the
      current state of that manager. *)

From stdpp Require Import gmap list numbers.

Local Open Scope Z_scope.

(** ** Machine integers *)

Definition is_uint16 (x : Z) : Prop := 0 <= x < 65536.

Definition wrap16 (x : Z) : Z := x mod 65536.

(** ** Errors

    [errNoMoreAvailableValues] and [errValueAlreadyExists] are the two
    package-level error values.  The other three are built in place by
    [fmt.Errorf] / [errors.New]:
    ["no value with id %d"], ["value with id %d is not set"] and
    ["id is not reserved"]. *)

Inductive error : Type :=
  | errNoMoreAvailableValues
  | errValueAlreadyExists
  | errNoValueWithID (id : Z)
  | errValueNotSet (id : Z)
  | errIDNotReserved.

Section idmanager.

Context {V : Type}.

(** ** The manager *)

Record Manager : Type := mkManager {
  values : gmap Z (option V);
  lstID : Z
}.

(** [v, ok := values[id]]: a missing entry reads as the zero value [nil]. *)
Definition index (vals : gmap Z (option V)) (id : Z) : option V * bool :=
  match vals !! id with
  | Some v => (v, true)
  | None => (None, false)
  end.

Definition New : Manager := {| values := ∅; lstID := 0 |}.

(** The closure returned by [constructFreeFunc id]. *)
Definition constructFreeFunc (id : Z) : Manager -> Manager :=
  fun m => {| values := delete id (values m); lstID := lstID m |}.

(** The [for ; nxtID != m.lstID; nxtID++] loop of [ReserveNextID], returning
    the value of [nxtID] at loop exit.  [fuel] bounds the number of times the
    loop condition is evaluated; [None] means the bound was hit. *)
Fixpoint scan (fuel : nat) (vals : gmap Z (option V)) (lst nxtID : Z)
  : option Z :=
  match fuel with
  | O => None
  | S fuel' =>
      if nxtID =? lst then Some nxtID
      else
        let '(_, ok) := index vals nxtID in
        if negb ok then Some nxtID
        else scan fuel' vals lst (wrap16 (nxtID + 1))
  end.

Definition scan_fuel : nat := Z.to_nat 65536.

Definition ReserveNextID (m : Manager)
  : option (Manager * (option Z * option (Manager -> Manager) * option error)) :=
  match scan scan_fuel (values m) (lstID m) (wrap16 (lstID m + 1)) with
  | None => None
  | Some nxtID =>
      if nxtID =? lstID m then
        Some (m, (None, None, Some errNoMoreAvailableValues))
      else
        Some ({| values := <[nxtID := None]> (values m); lstID := nxtID |},
              (Some nxtID, Some (constructFreeFunc nxtID), None))
  end.

Definition Pop (m : Manager) (id : Z) : Manager * (option V * option error) :=
  let '(v, ok) := index (values m) id in
  if negb ok then (m, (None, Some (errNoValueWithID id)))
  else
    match v with
    | None => (m, (None, Some (errValueNotSet id)))
    | Some _ =>
        ({| values := delete id (values m); lstID := lstID m |}, (v, None))
    end.

Definition Add (m : Manager) (id : Z) (v : option V)
  : Manager * (option (Manager -> Manager) * option error) :=
  let '(_, ok) := index (values m) id in
  if ok then (m, (None, Some errValueAlreadyExists))
  else
    ({| values := <[id := v]> (values m); lstID := lstID m |},
     (Some (constructFreeFunc id), None)).

Definition Set_ (m : Manager) (id : Z) (v : option V)
  : Manager * option error :=
  let '(l, ok) := index (values m) id in
  if negb ok then (m, Some errIDNotReserved)
  else
    match l with
    | Some _ => (m, Some errValueAlreadyExists)
    | None => ({| values := <[id := v]> (values m); lstID := lstID m |}, None)
    end.

Definition Get (m : Manager) (id : Z) : option V * bool :=
  let '(lis, ok) := index (values m) id in
  match lis with
  | None => (None, false)
  | Some _ => (lis, ok)
  end.

(** ** Sequences of calls

    A client of one manager, seen from the manager: the calls it makes, in
    order.  [OpFree id] is a call of a closure that [constructFreeFunc id]
    built. *)

Inductive op : Type :=
  | OpReserveNextID
  | OpPop (id : Z)
  | OpAdd (id : Z) (v : option V)
  | OpSet (id : Z) (v : option V)
  | OpGet (id : Z)
  | OpFree (id : Z).

(** What a call did to the keys in use: [ReserveNextID] returned [k]; [Pop]
    returned the value of [k] and deleted it, or a closure bound to [k] ran;
    or neither (every other call, and every call that returned an error). *)
Inductive event : Type :=
  | Issued (k : Z)
  | Removed (k : Z)
  | Quiet.

(** One call: the state after it and what it did. *)
Definition exec (m : Manager) (o : op) : option (Manager * event) :=
  match o with
  | OpReserveNextID =>
      match ReserveNextID m with
      | Some (m', (Some k, _, _)) => Some (m', Issued k)
      | Some (m', (None, _, _)) => Some (m', Quiet)
      | None => None
      end
  | OpPop id =>
      match Pop m id with
      | (m', (_, None)) => Some (m', Removed id)
      | (m', (_, Some _)) => Some (m', Quiet)
      end
  | OpAdd id v => Some ((Add m id v).1, Quiet)
  | OpSet id v => Some ((Set_ m id v).1, Quiet)
  | OpGet id => Some (m, Quiet)
  | OpFree id => Some (constructFreeFunc id m, Removed id)
  end.

(** A run of calls, with its log: each call paired with what it did. *)
Fixpoint run (m : Manager) (ops : list op)
  : option (Manager * list (op * event)) :=
  match ops with
  | [] => Some (m, [])
  | o :: ops' =>
      match exec m o with
      | None => None
      | Some (m1, ev) =>
          match run m1 ops' with
          | None => None
          | Some (m2, log) => Some (m2, (o, ev) :: log)
          end
      end
  end.

Definition issued_by (ev : event) : list Z :=
  match ev with
  | Issued k => [k]
  | _ => []
  end.

(** The keys a log issued, oldest first. *)
Fixpoint issued (log : list (op * event)) : list Z :=
  match log with
  | [] => []
  | (_, ev) :: log' => issued_by ev ++ issued log'
  end.

(** No call of the log removes a key that was issued earlier ([seen] holds
    the keys issued before the log starts). *)
Fixpoint undisturbed (seen : list Z) (log : list (op * event)) : bool :=
  match log with
  | [] => true
  | (_, ev) :: log' =>
      match ev with
      | Removed k => bool_decide (k ∉ seen)
      | _ => true
      end
      && undisturbed (seen ++ issued_by ev) log'
  end.

(** [Set_ m id v1], then [Set_ _ id v2], ...: the errors returned, in order. *)
Fixpoint SetMany (m : Manager) (id : Z) (vs : list (option V))
  : Manager * list (option error) :=
  match vs with
  | [] => (m, [])
  | v :: vs' =>
      let '(m1, e) := Set_ m id v in
      let '(m2, es) := SetMany m1 id vs' in
      (m2, e :: es)
  end.

(** The setup of the test "call on full manager": [n] consecutive keys from
    [k] on are given a [nil] entry. *)
Fixpoint fill (n : nat) (k : Z) (vals : gmap Z (option V))
  : gmap Z (option V) :=
  match n with
  | O => vals
  | S n' => fill n' (k + 1) (<[k := None]> vals)
  end.

(** Are the [n] consecutive keys from [k] on all present? *)
Fixpoint all_present (n : nat) (k : Z) (vals : gmap Z (option V)) : bool :=
  match n with
  | O => true
  | S n' =>
      match vals !! k with
      | Some _ => all_present n' (k + 1) vals
      | None => false
      end
  end.

(** The key reached from the cursor [lst] after [d] increments. *)
Definition key_after (lst d : Z) : Z := wrap16 (lst + d).

(** [k] is the first absent key met when counting up from [lst + 1], with
    wrap-around, over the keys other than [lst] itself. *)
Definition first_absent (vals : gmap Z (option V)) (lst k : Z) : Prop :=
  exists d, 1 <= d < 65536 /\ k = key_after lst d /\ vals !! k = None /\
    forall i, 1 <= i < d -> is_Some (vals !! key_after lst i).

(** ** [DoRange]

    The visitor [next] is a closure: besides the key and the value it reads
    and writes the variables it captured, here a state of type [S] threaded
    through the calls.  [rangeLoop] is the body of [DoRange] once the
    runtime has fixed the order in which [range m.values] yields the
    entries; next to the visitor's final state it returns the calls made,
    in order, each with the result the visitor gave. *)

Fixpoint rangeLoop {S : Type} (next : S -> Z -> option V -> S * bool)
    (s : S) (entries : list (Z * option V))
  : S * list (Z * option V * bool) :=
  match entries with
  | [] => (s, [])
  | (id, v) :: rest =>
      let '(s1, continue) := next s id v in
      if negb continue then (s1, [(id, v, continue)])
      else
        let '(s2, calls) := rangeLoop next s1 rest in
        (s2, (id, v, continue) :: calls)
  end.

(** Go leaves the iteration order of a map unspecified: [DoRange] may run
    the loop over the entries of the table in any order, each entry once.
    The manager itself is only read. *)
Definition DoRange {S : Type} (m : Manager)
    (next : S -> Z -> option V -> S * bool) (s : S)
    (r : S * list (Z * option V * bool)) : Prop :=
  exists order, order ≡ₚ map_to_list (values m) /\ r = rangeLoop next s order.

(** ** Calls that name their key *)

Inductive keyop : Type :=
  | KPop (id : Z)
  | KAdd (id : Z) (v : option V)
  | KSet (id : Z) (v : option V)
  | KGet (id : Z)
  | KFree (id : Z).

(** What such a call returns to its caller. *)
Inductive outcome : Type :=
  | OPop (r : option V * option error)
  | OAdd (r : option (Manager -> Manager) * option error)
  | OSet (e : option error)
  | OGet (r : option V * bool)
  | OFree.

Definition key_of (o : keyop) : Z :=
  match o with
  | KPop id | KAdd id _ | KSet id _ | KGet id | KFree id => id
  end.

Definition call (m : Manager) (o : keyop) : Manager * outcome :=
  match o with
  | KPop id => let '(m', r) := Pop m id in (m', OPop r)
  | KAdd id v => let '(m', r) := Add m id v in (m', OAdd r)
  | KSet id v => let '(m', e) := Set_ m id v in (m', OSet e)
  | KGet id => (m, OGet (Get m id))
  | KFree id => (constructFreeFunc id m, OFree)
  end.

(** The key an [op] names; [ReserveNextID] names none. *)
Definition target (o : op) : option Z :=
  match o with
  | OpReserveNextID => None
  | OpPop id | OpAdd id _ | OpSet id _ | OpGet id | OpFree id => Some id
  end.

(** Every key of the table and the cursor are [uint16] values, as the Go
    types have it. *)
Definition well_typed (m : Manager) : Prop :=
  is_uint16 (lstID m) /\
  forall k, is_Some (values m !! k) -> is_uint16 k.

End idmanager.

Arguments Manager V : clear implicits.
Arguments op V : clear implicits.
Arguments keyop V : clear implicits.
Arguments outcome V : clear implicits.

(** ** Sample managers *)

(** The manager of the test "call on full manager": a fresh manager whose
    65536 keys were all given a [nil] entry. *)
Definition fullManager : Manager nat :=
  {| values := fill (Z.to_nat 65536) 0 ∅; lstID := 0 |}.

(** A fresh manager in which every key but the cursor's own, 0, was given a
    [nil] entry. *)
Definition cursorOnlyFree : Manager nat :=
  {| values := fill (Z.to_nat 65535) 1 ∅; lstID := 0 |}.

(** A fresh manager after one [ReserveNextID]. *)
Definition reservedOne : Manager nat :=
  {| values := {[ 1 := None ]}; lstID := 1 |}.

(** A fresh manager after [Add 1 5]. *)
Definition occupiedOne : Manager nat :=
  {| values := {[ 1 := Some 5%nat ]}; lstID := 0 |}.


(** A client that reserves three keys and, in between, adds, sets, pops and
    frees keys it was not issued, and tries to pop a key it was issued but
    has not set. *)
Definition sampleOps : list (op nat) :=
  [OpReserveNextID; OpAdd 7 (Some 3%nat); OpReserveNextID;
   OpSet 1 (Some 4%nat); OpPop 7; OpPop 2; OpReserveNextID; OpFree 9;
   OpGet 2].

(** A client that reserves two keys, releases the second and reserves
    again while it still holds the first. *)
Definition heldOps : list (op nat) :=
  [OpReserveNextID; OpReserveNextID; OpFree 2; OpReserveNextID].

(** An empty manager whose cursor is on the last key. *)
Definition cursorAtMax : Manager nat := {| values := ∅; lstID := 65535 |}.

(** A manager with an occupied, a reserved-empty and another occupied key. *)
Definition threeEntries : Manager nat :=
  {| values := {[ 0 := Some 10%nat; 1 := None; 2 := Some 12%nat ]};
     lstID := 1 |}.

(** A visitor that records the keys it is shown and never stops. *)
Definition collectKeys (s : list Z) (id : Z) (v : option nat)
  : list Z * bool :=
  (id :: s, true).

(** The second visitor of the test of [DoRange], which counts its calls in a
    captured variable: it returns false when the count is 1, and otherwise
    increments the count and returns true. *)
Definition stopAtSecond (count : nat) (id : Z) (v : option nat)
  : nat * bool :=
  if (count =? 1)%nat then (count, false) else (S count, true).

(** * Properties *)

Section properties.

Context {V : Type}.

Implicit Types (m : Manager V) (vals : gmap Z (option V)).
Implicit Types (k id lst d : Z) (v : option V).

(** ** Wrap-around arithmetic *)

Lemma wrap16_range x : is_uint16 (wrap16 x).
Proof. unfold is_uint16, wrap16. apply Z.mod_pos_bound. lia. Qed.

Lemma wrap16_id x : is_uint16 x -> wrap16 x = x.
Proof. unfold is_uint16, wrap16. intros H. by apply Z.mod_small. Qed.

Lemma key_after_succ lst d : wrap16 (key_after lst d + 1) = key_after lst (d + 1).
Proof.
  unfold key_after, wrap16.
  rewrite Zplus_mod_idemp_l. f_equal. lia.
Qed.

Lemma key_after_full lst : is_uint16 lst -> key_after lst 65536 = lst.
Proof.
  intros H. unfold key_after, wrap16.
  replace (lst + 65536) with (lst + 1 * 65536) by lia.
  rewrite Z_mod_plus_full. by apply Z.mod_small.
Qed.

(** Fewer than 65536 increments never lead back to the cursor. *)
Lemma key_after_neq lst d :
  is_uint16 lst -> 1 <= d < 65536 -> key_after lst d <> lst.
Proof.
  unfold is_uint16, key_after, wrap16. intros Hl Hd Heq.
  destruct (Z_lt_ge_dec (lst + d) 65536) as [Hlt | Hge].
  - rewrite Z.mod_small in Heq by lia. lia.
  - replace (lst + d) with (lst + d - 65536 + 1 * 65536) in Heq by lia.
    rewrite Z_mod_plus_full, Z.mod_small in Heq by lia. lia.
Qed.

(** Every key other than the cursor is reached by fewer than 65536
    increments. *)
Lemma key_after_surj lst k :
  is_uint16 lst -> is_uint16 k -> k <> lst ->
  exists d, 1 <= d < 65536 /\ k = key_after lst d.
Proof.
  unfold is_uint16, key_after, wrap16. intros Hl Hk Hne.
  destruct (Z_lt_ge_dec lst k) as [Hlt | Hge].
  - exists (k - lst). split; [lia |].
    replace (lst + (k - lst)) with k by lia. by rewrite Z.mod_small.
  - exists (k - lst + 65536). split; [lia |].
    replace (lst + (k - lst + 65536)) with (k + 1 * 65536) by lia.
    by rewrite Z_mod_plus_full, Z.mod_small.
Qed.

(** The keys the scan looks up are the keys other than the cursor. *)
Lemma scanned_keys vals lst :
  is_uint16 lst ->
  (forall i, 1 <= i < 65536 -> is_Some (vals !! key_after lst i)) <->
  (forall k, is_uint16 k -> k <> lst -> is_Some (vals !! k)).
Proof.
  intros Hl. split.
  - intros Hall k Hk Hne.
    destruct (key_after_surj lst k Hl Hk Hne) as (d & Hd & ->). by apply Hall.
  - intros Hall i Hi. apply Hall; [apply wrap16_range |].
    by apply key_after_neq.
Qed.

(** ** Full tables *)

Lemma all_present_spec (n : nat) : forall k vals,
  all_present n k vals = true ->
  forall i, k <= i < k + Z.of_nat n -> is_Some (vals !! i).
Proof.
  induction n as [| n IH]; intros k vals Hall i Hi; [lia |].
  simpl in Hall. destruct (vals !! k) as [x |] eqn:Hk; [| done].
  destruct (decide (i = k)) as [-> |]; [by eauto |].
  apply (IH (k + 1)); [done | lia].
Qed.

(** ** The scanning loop *)

(** With enough fuel the loop exits, after [d - d0] increments, either at
    the first absent key or back at the cursor. *)
Lemma scan_exit vals lst (fuel : nat) d0 :
  is_uint16 lst -> 1 <= d0 <= 65536 -> 65536 - d0 < Z.of_nat fuel ->
  exists d, d0 <= d <= 65536 /\
    scan fuel vals lst (key_after lst d0) = Some (key_after lst d) /\
    (forall i, d0 <= i < d -> is_Some (vals !! key_after lst i)) /\
    (d < 65536 -> vals !! key_after lst d = None).
Proof.
  intros Hl. revert d0. induction fuel as [| fuel IH]; intros d0 Hd Hf; [lia |].
  simpl. destruct (Z.eqb_spec (key_after lst d0) lst) as [Heq | Hne].
  - assert (d0 = 65536) as ->.
    { destruct (decide (d0 = 65536)) as [| Hd']; [done |].
      exfalso. apply (key_after_neq lst d0); [done | lia | done]. }
    exists 65536. split_and!; [lia | lia | done | lia | lia].
  - assert (d0 < 65536).
    { destruct (decide (d0 = 65536)) as [-> |]; [| lia].
      by rewrite key_after_full in Hne. }
    unfold index. destruct (vals !! key_after lst d0) as [x |] eqn:Hlook; simpl.
    + rewrite key_after_succ.
      destruct (IH (d0 + 1)) as (d & Hd' & Hs & Hall & Hnone); [lia | lia |].
      exists d. split_and!; [lia | lia | done | | done].
      intros i Hi. destruct (decide (i = d0)) as [-> |]; [by eauto |].
      apply Hall. lia.
    + exists d0. split_and!; [lia | lia | done | lia | done].
Qed.

(** ** [ReserveNextID] *)

(** The full case analysis of [ReserveNextID]: it returns, and either it
    issues the first absent key, or every key but the cursor is present and
    it fails without touching the manager. *)
Lemma ReserveNextID_cases m :
  is_uint16 (lstID m) ->
  (exists k, first_absent (values m) (lstID m) k /\
     ReserveNextID m =
       Some ({| values := <[k := None]> (values m); lstID := k |},
             (Some k, Some (constructFreeFunc k), None)))
  \/
  ((forall i, 1 <= i < 65536 -> is_Some (values m !! key_after (lstID m) i)) /\
   ReserveNextID m = Some (m, (None, None, Some errNoMoreAvailableValues))).
Proof.
  intros Hl. unfold ReserveNextID.
  destruct (scan_exit (values m) (lstID m) scan_fuel 1 Hl)
    as (d & Hd & Hs & Hall & Hnone); [lia | unfold scan_fuel; lia |].
  change (wrap16 (lstID m + 1)) with (key_after (lstID m) 1).
  rewrite Hs. destruct (decide (d = 65536)) as [-> | Hd'].
  - right. rewrite key_after_full, Z.eqb_refl by done. split; [| done].
    intros i Hi. apply Hall. lia.
  - left. exists (key_after (lstID m) d).
    destruct (Z.eqb_spec (key_after (lstID m) d) (lstID m)) as [Heq | _].
    { exfalso. apply (key_after_neq (lstID m) d); [done | lia | done]. }
    split; [| done]. exists d. split_and!; [lia | lia | done | | ].
    + apply Hnone. lia.
    + intros i Hi. apply Hall. lia.
Qed.

Lemma first_absent_absent vals lst k : first_absent vals lst k -> vals !! k = None.
Proof. by intros (d & _ & _ & H & _). Qed.

Lemma first_absent_uint16 vals lst k : first_absent vals lst k -> is_uint16 k.
Proof. intros (d & _ & -> & _). apply wrap16_range. Qed.

Lemma first_absent_unique vals lst k1 k2 :
  first_absent vals lst k1 -> first_absent vals lst k2 -> k1 = k2.
Proof.
  intros (d1 & Hd1 & -> & Hn1 & Ha1) (d2 & Hd2 & -> & Hn2 & Ha2).
  destruct (Z.lt_trichotomy d1 d2) as [Hlt | [-> | Hgt]]; [| done |].
  - destruct (Ha2 d1) as [x Hx]; [lia | congruence].
  - destruct (Ha1 d2) as [x Hx]; [lia | congruence].
Qed.

(** ** [Pop], [Add], [Set_], [Get] and the release closure *)

Ltac unfold_methods :=
  unfold Pop, Add, Set_, Get, constructFreeFunc, index in *; simpl in *.

Lemma Manager_eq m1 m2 :
  values m1 = values m2 -> lstID m1 = lstID m2 -> m1 = m2.
Proof. destruct m1, m2; simpl; by intros -> ->. Qed.

(** C2 (amended): on an absent key, [Add] of a non-nil value succeeds and a
    following [Get] returns that value with found = true; [Add] of [nil]
    succeeds too but leaves the key reserved-empty, so [Get] reports
    not-found.  On a present key (reserved-empty or occupied) [Add] fails with
    [errValueAlreadyExists] and the manager, hence the value stored under the
    key, is unchanged. *)
Theorem Add_then_Get m k :
  (values m !! k = None ->
     (forall x : V,
        (Add m k (Some x)).2 = (Some (constructFreeFunc k), None) /\
        Get (Add m k (Some x)).1 k = (Some x, true)) /\
     (Add m k None).2 = (Some (constructFreeFunc k), None) /\
     values (Add m k None).1 !! k = Some None /\
     Get (Add m k None).1 k = (None, false)) /\
  (is_Some (values m !! k) ->
     forall v', Add m k v' = (m, (None, Some errValueAlreadyExists)) /\
                values (Add m k v').1 !! k = values m !! k).
Proof.
  split.
  - intros Hk. unfold_methods. rewrite Hk. simpl.
    split_and!; [| done | |]; intros; by rewrite ?lookup_insert_eq.
  - intros [x Hx] v'. unfold_methods. by rewrite Hx.
Qed.

(** C3 (amended): [Set_] fails with [errIDNotReserved] on an absent key and
    with [errValueAlreadyExists] on an occupied key.  On a reserved-empty key
    a [Set_] of a non-nil value succeeds and every later [Set_] on that key,
    whatever its value, fails with [errValueAlreadyExists]; a [Set_] of [nil]
    succeeds and leaves the manager as it was, the key still
    reserved-empty. *)
Theorem Set_once m id :
  (values m !! id = None ->
     forall v, Set_ m id v = (m, Some errIDNotReserved)) /\
  (forall x : V, values m !! id = Some (Some x) ->
     forall v, Set_ m id v = (m, Some errValueAlreadyExists)) /\
  (values m !! id = Some None ->
     (forall (x : V) vs,
        Set_ m id (Some x) =
          ({| values := <[id := Some x]> (values m); lstID := lstID m |}, None) /\
        (SetMany m id (Some x :: vs)).2 =
          None :: ((fun _ => Some errValueAlreadyExists) <$> vs)) /\
     Set_ m id None = (m, None)).
Proof.
  split_and!.
  - intros Hk v. unfold_methods. by rewrite Hk.
  - intros x Hk v. unfold_methods. by rewrite Hk.
  - intros Hk. split.
    + intros x vs.
      assert (Hset : Set_ m id (Some x) =
        ({| values := <[id := Some x]> (values m); lstID := lstID m |}, None)).
      { unfold_methods. by rewrite Hk. }
      split; [done |]. simpl. rewrite Hset.
      set (m1 := {| values := <[id := Some x]> (values m); lstID := lstID m |}).
      assert (Hrest : SetMany m1 id vs =
        (m1, (fun _ => Some errValueAlreadyExists) <$> vs)).
      { induction vs as [| v vs IH]; [done |]. simpl.
        replace (Set_ m1 id v) with (m1, Some errValueAlreadyExists).
        - by rewrite IH.
        - unfold_methods. by rewrite lookup_insert_eq. }
      by rewrite Hrest.
    + unfold_methods. rewrite Hk. simpl. f_equal.
      apply Manager_eq; simpl; [| done]. by apply insert_id.
Qed.

(** C4: [Pop] fails with "no value with id" exactly when the key is absent,
    with "value is not set" exactly when the key is reserved-empty, and on an
    occupied key it returns the stored value and deletes the key, so that a
    following [Get] reports not-found. *)
Theorem Pop_cases m k :
  ((Pop m k).2.2 = Some (errNoValueWithID k) <-> values m !! k = None) /\
  ((Pop m k).2.2 = Some (errValueNotSet k) <-> values m !! k = Some None) /\
  (forall x : V, values m !! k = Some (Some x) ->
     Pop m k = ({| values := delete k (values m); lstID := lstID m |},
                (Some x, None)) /\
     values (Pop m k).1 !! k = None /\
     Get (Pop m k).1 k = (None, false)).
Proof.
  unfold_methods.
  destruct (values m !! k) as [[x |] |] eqn:Hk; simpl;
    split_and!; try (split; intros; congruence); intros; simplify_eq;
    rewrite ?lookup_delete_eq; done.
Qed.

(** C5: [Get] returns [(nil, false)] on an absent key and on a
    reserved-empty key alike, so the two results are equal. *)
Theorem Get_absent_reserved m1 k1 m2 k2 :
  values m1 !! k1 = None -> values m2 !! k2 = Some None ->
  Get m1 k1 = (None, false) /\ Get m2 k2 = (None, false) /\
  Get m1 k1 = Get m2 k2.
Proof. intros H1 H2. unfold_methods. by rewrite H1, H2. Qed.

(** C6: [Add], [Set_], [Pop] and the release closure leave the cursor
    [lstID] as it was, whether they succeed or fail. *)
Theorem cursor_frame m id v :
  lstID (Add m id v).1 = lstID m /\
  lstID (Set_ m id v).1 = lstID m /\
  lstID (Pop m id).1 = lstID m /\
  lstID (constructFreeFunc id m) = lstID m.
Proof.
  unfold_methods. by destruct (values m !! id) as [[x |] |].
Qed.

(** C8: the release closure bound to [k] leaves [k] absent whatever was
    stored under it and touches no other key; on a manager where [k] is
    already absent it changes nothing; calling it twice gives the state of
    calling it once. *)
Theorem free_idempotent m k :
  values (constructFreeFunc k m) !! k = None /\
  (forall k', k' <> k ->
     values (constructFreeFunc k m) !! k' = values m !! k') /\
  (values m !! k = None -> constructFreeFunc k m = m) /\
  constructFreeFunc k (constructFreeFunc k m) = constructFreeFunc k m.
Proof.
  unfold_methods. split_and!.
  - apply lookup_delete_eq.
  - intros k' Hne. by apply lookup_delete_ne.
  - intros Hk. apply Manager_eq; simpl; [| done]. by apply delete_id.
  - f_equal. apply delete_id, lookup_delete_eq.
Qed.

(** ** Claims on [ReserveNextID] *)

(** C1: [ReserveNextID] returns; when it succeeds, the key it returns is the
    first absent key met counting up from cursor + 1 with wrap-around, that
    key is then present with a [nil] value and nothing else in the table
    changed, the cursor equals the key, and the closure returned is the one
    bound to it. *)
Theorem ReserveNextID_first_absent m :
  is_uint16 (lstID m) ->
  (exists r, ReserveNextID m = Some r) /\
  (forall m' (id : option Z) free,
     ReserveNextID m = Some (m', (id, free, None)) ->
     exists k, id = Some k /\
       first_absent (values m) (lstID m) k /\
       values m' = <[k := None]> (values m) /\
       values m' !! k = Some None /\
       lstID m' = k /\
       free = Some (constructFreeFunc k)).
Proof.
  intros Hl.
  destruct (ReserveNextID_cases m Hl) as [(k & Hk & Hr) | (Hall & Hr)];
    rewrite Hr; (split; [by eauto |]); intros m' id free Heq; [| done].
  simplify_eq. exists k. simpl. split_and!; try done.
  apply lookup_insert_eq.
Qed.

(** C7: when all 65536 keys are present [ReserveNextID] fails with
    [errNoMoreAvailableValues]; it fails exactly when every key met from
    cursor + 1 until the scan is back at the cursor is present; a failing
    call returns neither key nor closure and leaves the manager as it
    was. *)
Theorem ReserveNextID_exhausted m :
  is_uint16 (lstID m) ->
  ((forall k, is_uint16 k -> is_Some (values m !! k)) ->
     ReserveNextID m = Some (m, (None, None, Some errNoMoreAvailableValues))) /\
  (ReserveNextID m = Some (m, (None, None, Some errNoMoreAvailableValues)) <->
     forall i, 1 <= i < 65536 -> is_Some (values m !! key_after (lstID m) i)) /\
  (forall m' (id : option Z) free e,
     ReserveNextID m = Some (m', (id, free, Some e)) ->
     e = errNoMoreAvailableValues /\ id = None /\ free = None /\ m' = m).
Proof.
  intros Hl.
  destruct (ReserveNextID_cases m Hl) as [(k & Hk & Hr) | (Hall & Hr)];
    rewrite Hr; split_and!; try done.
  - intros Hfull. destruct (Hfull k) as [x Hx].
    + by eapply first_absent_uint16.
    + apply first_absent_absent in Hk. congruence.
  - split; [done |]. intros Hall.
    destruct Hk as (d & Hd & -> & Hnone & _).
    destruct (Hall d Hd) as [x Hx]. congruence.
  - intros m' id free e Heq. by simplify_eq.
Qed.

(** C10: a call that returns an error leaves the manager, table and cursor,
    exactly as it was: [Pop], [Add], [Set_] and [ReserveNextID] alike. *)
Theorem failure_preserves_state m :
  (forall id m' x e, Pop m id = (m', (x, Some e)) -> m' = m) /\
  (forall id v m' f e, Add m id v = (m', (f, Some e)) -> m' = m) /\
  (forall id v m' e, Set_ m id v = (m', Some e) -> m' = m) /\
  (forall m' (id : option Z) f e,
     ReserveNextID m = Some (m', (id, f, Some e)) -> m' = m).
Proof.
  split_and!.
  - intros id m' x e. unfold_methods.
    destruct (values m !! id) as [[y |] |]; simpl; congruence.
  - intros id v m' f e. unfold_methods.
    destruct (values m !! id) as [y |]; simpl; congruence.
  - intros id v m' e. unfold_methods.
    destruct (values m !! id) as [[y |] |]; simpl; congruence.
  - intros m' id f e. unfold ReserveNextID.
    destruct (scan _ _ _ _) as [nxtID |]; [| done].
    destruct (nxtID =? lstID m); congruence.
Qed.

(** ** Runs of calls *)

Lemma exec_step m o :
  is_uint16 (lstID m) ->
  exists m1 ev, exec m o = Some (m1, ev) /\
    is_uint16 (lstID m1) /\
    (forall k, is_Some (values m !! k) -> ev <> Removed k ->
       is_Some (values m1 !! k)) /\
    (forall k, ev = Issued k ->
       values m !! k = None /\ is_Some (values m1 !! k)).
Proof.
  intros Hl. destruct o as [| id | id v | id v | id | id]; simpl.
  - destruct (ReserveNextID_cases m Hl) as [(k & Hk & Hr) | (Hall & Hr)];
      rewrite Hr; eexists _, _; (split; [done |]); simpl.
    + split_and!.
      * by eapply first_absent_uint16.
      * intros k' Hk' _. destruct (decide (k = k')) as [-> |].
        -- rewrite lookup_insert_eq. eauto.
        -- by rewrite lookup_insert_ne.
      * intros k' [= <-]. rewrite lookup_insert_eq.
        split; [by eapply first_absent_absent | eauto].
    + split_and!; done.
  - unfold_methods.
    destruct (values m !! id) as [[y |] |] eqn:Hid; simpl;
      eexists _, _; (split; [done |]); simpl; split_and!; try done.
    intros k Hk Hne. rewrite lookup_delete_ne; [done | congruence].
  - eexists _, _. split; [done |]. unfold_methods.
    destruct (values m !! id) as [y |] eqn:Hid; simpl;
      split_and!; try done.
    intros k Hk _. destruct (decide (id = k)) as [-> |].
    + rewrite lookup_insert_eq. eauto.
    + by rewrite lookup_insert_ne.
  - eexists _, _. split; [done |]. unfold_methods.
    destruct (values m !! id) as [[y |] |] eqn:Hid; simpl;
      split_and!; try done.
    intros k Hk _. destruct (decide (id = k)) as [-> |].
    + rewrite lookup_insert_eq. eauto.
    + by rewrite lookup_insert_ne.
  - eexists _, _. split_and!; done.
  - eexists _, _. split; [done |]. unfold_methods. split_and!; try done.
    intros k Hk Hne. rewrite lookup_delete_ne; [done | congruence].
Qed.

(** The invariant of a run whose removals spare the issued keys: the keys
    issued so far are pairwise distinct and all present. *)
Lemma run_invariant ops : forall m seen,
  is_uint16 (lstID m) ->
  exists m' log, run m ops = Some (m', log) /\
    is_uint16 (lstID m') /\
    (undisturbed seen log = true ->
     NoDup seen -> (forall k, k ∈ seen -> is_Some (values m !! k)) ->
     NoDup (seen ++ issued log) /\
     (forall k, k ∈ seen ++ issued log -> is_Some (values m' !! k))).
Proof.
  induction ops as [| o ops IH]; intros m seen Hl.
  - exists m, []. simpl. split_and!; [done | done |].
    intros _ Hnd Hpres. by rewrite app_nil_r.
  - simpl. destruct (exec_step m o Hl) as (m1 & ev & He & Hl1 & Hkeep & Hnew).
    rewrite He.
    destruct (IH m1 (seen ++ issued_by ev) Hl1) as (m2 & log & Hr & Hl2 & Hinv).
    rewrite Hr. exists m2, ((o, ev) :: log). split_and!; [done | done |].
    intros Hund Hnd Hpres. simpl in Hund.
    apply andb_prop in Hund as [Hrem Hund].
    simpl. rewrite app_assoc. apply Hinv; [done | |].
    + destruct ev as [k | k |]; simpl; rewrite ?app_nil_r; try done.
      apply list.NoDup_app.
      split_and!; [done | | apply list.NoDup_singleton].
      intros k' Hk' Heq%list_elem_of_singleton. subst k'.
      destruct (Hnew k eq_refl) as [Hnone _].
      destruct (Hpres k Hk') as [x Hx]. congruence.
    + intros k [Hk | Hk]%elem_of_app.
      * apply Hkeep; [by apply Hpres |].
        intros ->. apply bool_decide_eq_true in Hrem. done.
      * destruct ev as [k' | k' |]; simpl in Hk;
          try (by apply not_elem_of_nil in Hk).
        apply list_elem_of_singleton in Hk as ->.
        by destruct (Hnew k' eq_refl).
Qed.

(** A log that starts with an entry comes from a run that starts with that
    call. *)
Lemma run_cons_log m ops m' (e : op V * event) log :
  run m ops = Some (m', e :: log) ->
  exists o ops' m1,
    ops = o :: ops' /\ e.1 = o /\
    exec m o = Some (m1, e.2) /\ run m1 ops' = Some (m', log).
Proof.
  destruct ops as [| o ops']; simpl; [done |].
  destruct (exec m o) as [[m1 ev] |] eqn:He; [| done].
  destruct (run m1 ops') as [[m2 lg] |] eqn:Hr; [| done].
  intros Heq. simplify_eq. by eexists _, _, _.
Qed.

(** A run can be cut where its log is cut. *)
Lemma run_log_split l1 : forall m ops m' l2,
  is_uint16 (lstID m) ->
  run m ops = Some (m', l1 ++ l2) ->
  exists m1 ops2, is_uint16 (lstID m1) /\ run m1 ops2 = Some (m', l2).
Proof.
  induction l1 as [| e l1 IH]; intros m ops m' l2 Hl Hr; [by eauto |].
  simpl in Hr.
  destruct (run_cons_log _ _ _ _ _ Hr) as (o & ops' & m1 & -> & _ & He & Hr').
  destruct (exec_step m o Hl) as (m1' & ev & He' & Hl1 & _).
  rewrite He in He'. injection He' as <- _.
  by apply (IH m1 ops' m' l2).
Qed.

(** A present key that no call of a stretch of the log removes is not
    issued in that stretch, and is still present if the stretch ends the
    run. *)
Lemma run_held l2 : forall m ops m' l3 k,
  is_uint16 (lstID m) ->
  is_Some (values m !! k) ->
  run m ops = Some (m', l2 ++ l3) ->
  (forall o, (o, Removed k) ∉ l2) ->
  (k ∉ issued l2) /\ (l3 = [] -> is_Some (values m' !! k)).
Proof.
  induction l2 as [| [o ev] l2 IH]; intros m ops m' l3 k Hl Hk Hr Hrem.
  - split; [apply not_elem_of_nil |]. intros ->. simpl in Hr.
    destruct ops as [| o ops']; simpl in Hr; [by simplify_eq |].
    destruct (exec m o) as [[m1 ev] |]; [| done].
    by destruct (run m1 ops') as [[m2 lg] |].
  - simpl in Hr.
    destruct (run_cons_log _ _ _ _ _ Hr) as (o' & ops' & m1 & -> & _ & He & Hr').
    simpl in He.
    destruct (exec_step m o' Hl) as (m1' & ev' & He' & Hl1 & Hkeep & Hnew).
    rewrite He in He'. injection He' as <- <-.
    assert (Hne : ev <> Removed k).
    { intros ->. apply (Hrem o). by left. }
    assert (Hni : k ∉ issued_by ev).
    { destruct ev as [k' | k' |]; simpl; try apply not_elem_of_nil.
      intros Heq%list_elem_of_singleton. subst k'.
      destruct (Hnew k eq_refl) as [Hnone _]. destruct Hk as [x Hx].
      congruence. }
    destruct (IH m1 ops' m' l3 k Hl1 (Hkeep k Hk Hne) Hr') as [Hnot Hpres].
    { intros o'' Hin. apply (Hrem o''). by right. }
    split; [| done]. simpl. intros [Hin | Hin]%elem_of_app; done.
Qed.

(** C9: every run of calls from a manager returns.  A key that
    [ReserveNextID] issued is not issued again by any later call of the run
    for as long as no call in between removes it (by a [Pop] that returns
    its value, or by a release closure), whatever happens to the other
    keys; and if no call removes it until the end of the run it is still
    present then.  Hence, in a run none of whose calls removes a key issued
    earlier, the keys issued are pairwise distinct and all still present at
    the end. *)
Theorem reserved_keys_distinct m ops :
  is_uint16 (lstID m) ->
  exists m' log, run m ops = Some (m', log) /\
    (forall l1 o1 k l2 l3,
       log = l1 ++ (o1, Issued k) :: l2 ++ l3 ->
       (forall o, (o, Removed k) ∉ l2) ->
       (k ∉ issued l2) /\ (l3 = [] -> is_Some (values m' !! k))) /\
    (undisturbed [] log = true ->
     NoDup (issued log) /\
     (forall k, k ∈ issued log -> is_Some (values m' !! k))).
Proof.
  intros Hl.
  destruct (run_invariant ops m [] Hl) as (m' & log & Hr & _ & Hinv).
  exists m', log. split_and!; [done | |].
  - intros l1 o1 k l2 l3 -> Hrem.
    destruct (run_log_split _ _ _ _ _ Hl Hr) as (m1 & ops2 & Hl1 & Hr1).
    destruct (run_cons_log _ _ _ _ _ Hr1)
      as (o & ops' & m2 & -> & _ & He & Hr2).
    simpl in He.
    destruct (exec_step m1 o Hl1) as (m2' & ev & He' & Hl2 & _ & Hnew).
    rewrite He in He'. injection He' as <- <-.
    destruct (Hnew k eq_refl) as [_ Hk].
    by apply (run_held l2 m2 ops' m' l3 k).
  - intros Hund. apply Hinv; [done | apply NoDup_nil_2 |].
    intros k Hk. by apply not_elem_of_nil in Hk.
Qed.

End properties.

(** * The claims on sample managers *)

Lemma uint16_0 : is_uint16 0.
Proof. unfold is_uint16. lia. Qed.

Lemma fullManager_full k : is_uint16 k -> is_Some (values fullManager !! k).
Proof.
  intros Hk. apply (all_present_spec (Z.to_nat 65536) 0).
  - vm_compute. reflexivity.
  - unfold is_uint16 in Hk. lia.
Qed.

(** The scan stops when it is back at the cursor, without looking the
    cursor's own key up: with that key as the only absent one,
    [ReserveNextID] fails. *)
Lemma cursor_key_not_examined :
  values cursorOnlyFree !! 0 = None /\
  ReserveNextID cursorOnlyFree =
    Some (cursorOnlyFree, (None, None, Some errNoMoreAvailableValues)).
Proof.
  split; [vm_compute; reflexivity |].
  destruct (ReserveNextID_cases cursorOnlyFree uint16_0)
    as [(k & (d & Hd & -> & Hnone & _) & _) | (_ & Hr)]; [| exact Hr].
  assert (Hk : key_after (lstID cursorOnlyFree) d = d).
  { unfold key_after, wrap16. change (lstID cursorOnlyFree) with 0.
    rewrite Z.add_0_l. apply Z.mod_small. lia. }
  rewrite Hk in Hnone.
  destruct (all_present_spec (Z.to_nat 65535) 1 (values cursorOnlyFree))
    with (i := d) as [x Hx]; [vm_compute; reflexivity | lia | congruence].
Qed.

Lemma ReserveNextID_first_absent_witness :
  is_uint16 (lstID (New (V:=nat))) /\
  ReserveNextID (New (V:=nat)) =
    Some ({| values := {[ 1 := None ]}; lstID := 1 |},
          (Some 1, Some (constructFreeFunc 1), None)) /\
  first_absent (values (New (V:=nat))) 0 1.
Proof.
  assert (Hl : is_uint16 (lstID (New (V:=nat)))) by apply uint16_0.
  assert (Hr : ReserveNextID (New (V:=nat)) =
    Some ({| values := {[ 1 := None ]}; lstID := 1 |},
          (Some 1, Some (constructFreeFunc 1), None))).
  { vm_compute. reflexivity. }
  destruct (ReserveNextID_first_absent New Hl) as [_ Hsucc].
  destruct (Hsucc _ _ _ Hr) as (k & Hk & Hfirst & _).
  injection Hk as <-. split_and!; [exact Hl | exact Hr | exact Hfirst].
Defined.

(** C2 as stated fails for the [nil] value: [Add] of [nil] on the absent
    key 1 of a fresh manager succeeds, and the following [Get] reports
    not-found instead of found. *)
Lemma Add_nil_then_Get_not_found :
  values (New (V:=nat)) !! 1 = None /\
  (Add (New (V:=nat)) 1 None).2.2 = None /\
  Get (Add (New (V:=nat)) 1 None).1 1 = (None, false) /\
  Get (Add (New (V:=nat)) 1 None).1 1 <> (None, true).
Proof. split_and!; [reflexivity | reflexivity | reflexivity | discriminate]. Qed.

Lemma Add_then_Get_witness :
  values (New (V:=nat)) !! 1 = None /\
  Get (Add New 1 (Some 5%nat)).1 1 = (Some 5%nat, true) /\
  is_Some (values occupiedOne !! 1) /\
  Add occupiedOne 1 (Some 6%nat) =
    (occupiedOne, (None, Some errValueAlreadyExists)) /\
  values (Add occupiedOne 1 (Some 6%nat)).1 !! 1 = Some (Some 5%nat).
Proof.
  assert (H1 : values (New (V:=nat)) !! 1 = None) by reflexivity.
  assert (H2 : is_Some (values occupiedOne !! 1)).
  { exists (Some 5%nat). reflexivity. }
  destruct (Add_then_Get (New (V:=nat)) 1) as [Habs _].
  destruct (Habs H1) as [Hsome _]. destruct (Hsome 5%nat) as [_ Hget].
  destruct (Add_then_Get occupiedOne 1) as [_ Hpres].
  destruct (Hpres H2 (Some 6%nat)) as [Hadd Hval].
  split_and!; [exact H1 | exact Hget | exact H2 | exact Hadd |].
  rewrite Hval. reflexivity.
Defined.

(** C3 as stated fails for the [nil] value: on the reserved-empty key 1 a
    [Set_] of [nil] succeeds, and the [Set_] after it succeeds again. *)
Lemma Set_nil_succeeds_twice :
  values reservedOne !! 1 = Some None /\
  (Set_ reservedOne 1 None).2 = None /\
  (Set_ (Set_ reservedOne 1 None).1 1 (Some 7%nat)).2 = None /\
  (SetMany reservedOne 1 [None; Some 7%nat]).2 = [None; None].
Proof. split_and!; reflexivity. Qed.

Lemma Set_once_witness :
  (values (New (V:=nat)) !! 1 = None /\
   Set_ New 1 (Some 4%nat) = (New, Some errIDNotReserved)) /\
  (values occupiedOne !! 1 = Some (Some 5%nat) /\
   Set_ occupiedOne 1 (Some 4%nat) = (occupiedOne, Some errValueAlreadyExists)) /\
  (values reservedOne !! 1 = Some None /\
   (SetMany reservedOne 1 [Some 4%nat; Some 5%nat; None]).2 =
     [None; Some errValueAlreadyExists; Some errValueAlreadyExists] /\
   Set_ reservedOne 1 None = (reservedOne, None)).
Proof.
  assert (H1 : values (New (V:=nat)) !! 1 = None) by reflexivity.
  assert (H2 : values occupiedOne !! 1 = Some (Some 5%nat)) by reflexivity.
  assert (H3 : values reservedOne !! 1 = Some None) by reflexivity.
  destruct (Set_once (New (V:=nat)) 1) as (Habs & _ & _).
  destruct (Set_once occupiedOne 1) as (_ & Hocc & _).
  destruct (Set_once reservedOne 1) as (_ & _ & Hres).
  destruct (Hres H3) as [Hmany Hnil].
  destruct (Hmany 4%nat [Some 5%nat; None]) as [_ Hseq].
  split_and!;
    [exact H1 | exact (Habs H1 _) | exact H2 | exact (Hocc _ H2 _)
    | exact H3 | exact Hseq | exact Hnil].
Defined.

Lemma Pop_cases_witness :
  (values (New (V:=nat)) !! 1 = None /\
   (Pop (New (V:=nat)) 1).2.2 = Some (errNoValueWithID 1)) /\
  (values reservedOne !! 1 = Some None /\
   (Pop reservedOne 1).2.2 = Some (errValueNotSet 1)) /\
  (values occupiedOne !! 1 = Some (Some 5%nat) /\
   (Pop occupiedOne 1).2 = (Some 5%nat, None) /\
   Get (Pop occupiedOne 1).1 1 = (None, false)).
Proof.
  assert (H1 : values (New (V:=nat)) !! 1 = None) by reflexivity.
  assert (H2 : values reservedOne !! 1 = Some None) by reflexivity.
  assert (H3 : values occupiedOne !! 1 = Some (Some 5%nat)) by reflexivity.
  destruct (Pop_cases (New (V:=nat)) 1) as ([_ Habs] & _ & _).
  destruct (Pop_cases reservedOne 1) as (_ & [_ Hres] & _).
  destruct (Pop_cases occupiedOne 1) as (_ & _ & Hocc).
  destruct (Hocc _ H3) as (Hpop & _ & Hget).
  split_and!;
    [exact H1 | exact (Habs H1) | exact H2 | exact (Hres H2)
    | exact H3 | | exact Hget].
  rewrite Hpop. reflexivity.
Defined.

Lemma Get_absent_reserved_witness :
  values (New (V:=nat)) !! 1 = None /\
  values reservedOne !! 1 = Some None /\
  Get (New (V:=nat)) 1 = Get reservedOne 1.
Proof.
  assert (H1 : values (New (V:=nat)) !! 1 = None) by reflexivity.
  assert (H2 : values reservedOne !! 1 = Some None) by reflexivity.
  destruct (Get_absent_reserved New 1 reservedOne 1 H1 H2) as (_ & _ & Heq).
  split_and!; [exact H1 | exact H2 | exact Heq].
Defined.

Lemma ReserveNextID_exhausted_witness :
  is_uint16 (lstID fullManager) /\
  (forall k, is_uint16 k -> is_Some (values fullManager !! k)) /\
  ReserveNextID fullManager =
    Some (fullManager, (None, None, Some errNoMoreAvailableValues)) /\
  (forall i, 1 <= i < 65536 ->
     is_Some (values fullManager !! key_after (lstID fullManager) i)).
Proof.
  assert (Hl : is_uint16 (lstID fullManager)) by apply uint16_0.
  destruct (ReserveNextID_exhausted fullManager Hl) as (Hfull & [Hscan _] & _).
  pose proof (Hfull fullManager_full) as Hr.
  split_and!; [exact Hl | exact fullManager_full | exact Hr | exact (Hscan Hr)].
Defined.

Lemma free_idempotent_witness :
  values occupiedOne !! 1 = Some (Some 5%nat) /\
  values (constructFreeFunc 1 occupiedOne) !! 1 = None /\
  values (New (V:=nat)) !! 1 = None /\
  constructFreeFunc 1 (New (V:=nat)) = New /\
  values (constructFreeFunc 1 reservedOne) !! 2 = values reservedOne !! 2.
Proof.
  assert (H1 : values (New (V:=nat)) !! 1 = None) by reflexivity.
  assert (H2 : (2 : Z) <> 1) by lia.
  destruct (free_idempotent occupiedOne 1) as (Hgone & _).
  destruct (free_idempotent (New (V:=nat)) 1) as (_ & _ & Hnoop & _).
  destruct (free_idempotent reservedOne 1) as (_ & Hother & _).
  split_and!;
    [reflexivity | exact Hgone | exact H1 | exact (Hnoop H1)
    | exact (Hother 2 H2)].
Defined.

Lemma reserved_keys_distinct_witness :
  is_uint16 (lstID (New (V:=nat))) /\
  (exists m' log,
     run New sampleOps = Some (m', log) /\
     undisturbed [] log = true /\
     issued log = [1; 2; 3] /\
     NoDup (issued log) /\
     (forall k, k ∈ issued log -> is_Some (values m' !! k))) /\
  (exists m' log l2,
     run New heldOps = Some (m', log) /\
     log = [] ++ (OpReserveNextID, Issued 1) :: l2 ++ [] /\
     (forall o, (o, Removed 1) ∉ l2) /\
     undisturbed [] log = false /\
     issued l2 = [2; 3] /\
     (1 ∉ issued l2) /\
     is_Some (values m' !! 1)).
Proof.
  assert (Hl : is_uint16 (lstID (New (V:=nat)))) by apply uint16_0.
  split_and!; [exact Hl | |].
  - destruct (reserved_keys_distinct New sampleOps Hl)
      as (m' & log & Hr & _ & Hinv).
    exists m', log.
    assert (Hlog : undisturbed [] log = true /\ issued log = [1; 2; 3]).
    { vm_compute in Hr. injection Hr as <- <-. split; reflexivity. }
    destruct Hlog as [Hund Hiss]. destruct (Hinv Hund) as [Hnd Hpres].
    split_and!; [exact Hr | exact Hund | exact Hiss | exact Hnd | exact Hpres].
  - destruct (reserved_keys_distinct New heldOps Hl)
      as (m' & log & Hr & Hheld & _).
    set (l2 := [(OpReserveNextID, Issued 2); (OpFree 2, Removed 2);
                (OpReserveNextID (V:=nat), Issued 3)]).
    assert (Hlog : log = [] ++ (OpReserveNextID, Issued 1) :: l2 ++ []).
    { vm_compute in Hr. injection Hr as _ <-. reflexivity. }
    assert (Hrem : forall o : op nat, (o, Removed 1) ∉ l2).
    { intros o Hin. unfold l2 in Hin.
      repeat (apply elem_of_cons in Hin as [Heq | Hin]; [discriminate |]).
      by apply not_elem_of_nil in Hin. }
    destruct (Hheld [] OpReserveNextID 1 l2 [] Hlog Hrem) as [Hnot Hpres].
    exists m', log, l2.
    split_and!;
      [exact Hr | exact Hlog | exact Hrem | | reflexivity | exact Hnot
      | exact (Hpres eq_refl)].
    rewrite Hlog. reflexivity.
Defined.

Lemma fullManager_fails :
  ReserveNextID fullManager =
    Some (fullManager, (None, None, Some errNoMoreAvailableValues)).
Proof.
  destruct (ReserveNextID_cases fullManager uint16_0)
    as [(k & Hk & _) | (_ & Hr)]; [| exact Hr].
  destruct (fullManager_full k (first_absent_uint16 _ _ _ Hk)) as [x Hx].
  apply first_absent_absent in Hk. congruence.
Qed.

Lemma failure_preserves_state_witness :
  ((Pop (New (V:=nat)) 1).2.2 = Some (errNoValueWithID 1) /\
   (Pop (New (V:=nat)) 1).1 = New) /\
  ((Add occupiedOne 1 (Some 6%nat)).2.2 = Some errValueAlreadyExists /\
   (Add occupiedOne 1 (Some 6%nat)).1 = occupiedOne) /\
  ((Set_ occupiedOne 1 (Some 6%nat)).2 = Some errValueAlreadyExists /\
   (Set_ occupiedOne 1 (Some 6%nat)).1 = occupiedOne) /\
  (exists m', ReserveNextID fullManager =
     Some (m', (None, None, Some errNoMoreAvailableValues)) /\
     m' = fullManager).
Proof.
  assert (H1 : Pop (New (V:=nat)) 1 =
    ((Pop (New (V:=nat)) 1).1, (None, Some (errNoValueWithID 1))))
    by reflexivity.
  assert (H2 : Add occupiedOne 1 (Some 6%nat) =
    ((Add occupiedOne 1 (Some 6%nat)).1, (None, Some errValueAlreadyExists)))
    by reflexivity.
  assert (H3 : Set_ occupiedOne 1 (Some 6%nat) =
    ((Set_ occupiedOne 1 (Some 6%nat)).1, Some errValueAlreadyExists))
    by reflexivity.
  destruct (failure_preserves_state (New (V:=nat))) as (Hpop & _).
  destruct (failure_preserves_state occupiedOne) as (_ & Hadd & Hset & _).
  destruct (failure_preserves_state fullManager) as (_ & _ & _ & Hres).
  split_and!.
  - reflexivity.
  - exact (Hpop _ _ _ _ H1).
  - reflexivity.
  - exact (Hadd _ _ _ _ _ H2).
  - reflexivity.
  - exact (Hset _ _ _ _ H3).
  - exists fullManager. split; [exact fullManager_fails |].
    exact (Hres _ _ _ _ fullManager_fails).
Defined.

(** * Further properties of the methods *)

Section more_properties.

Context {V : Type}.

Implicit Types (m : Manager V) (vals : gmap Z (option V)).
Implicit Types (k id lst d : Z) (v : option V).

Ltac unfold_methods :=
  unfold Pop, Add, Set_, Get, constructFreeFunc, index in *; simpl in *.

(** What a successful [ReserveNextID] did, in one equation. *)
Lemma ReserveNextID_success m m1 k (f : option (Manager V -> Manager V)) :
  is_uint16 (lstID m) ->
  ReserveNextID m = Some (m1, (Some k, f, None)) ->
  first_absent (values m) (lstID m) k /\
  m1 = {| values := <[k := None]> (values m); lstID := k |} /\
  f = Some (constructFreeFunc k).
Proof.
  intros Hl Hr.
  destruct (ReserveNextID_cases m Hl) as [(k' & Hk' & Hr') | (_ & Hr')];
    rewrite Hr' in Hr; by simplify_eq.
Qed.

Lemma first_absent_not_cursor vals lst k :
  is_uint16 lst -> first_absent vals lst k -> k <> lst.
Proof. intros Hl (d & Hd & -> & _). by apply key_after_neq. Qed.

(** X1: [Get] reports found exactly for an occupied key, and then returns
    the value stored under it. *)
Theorem Get_found_iff m k :
  (forall x : V, Get m k = (Some x, true) <-> values m !! k = Some (Some x)) /\
  ((Get m k).2 = true <-> exists x : V, values m !! k = Some (Some x)).
Proof.
  unfold_methods. destruct (values m !! k) as [[y |] |]; simpl.
  - split; [intros x; split; congruence |]. split; [by eauto | done].
  - split; [intros x; split; congruence |].
    split; [done | by intros [x ?]].
  - split; [intros x; split; congruence |].
    split; [done | by intros [x ?]].
Qed.

(** X2: which call a key accepts is decided by its state alone: [Add]
    succeeds exactly on an absent key, [Set_] exactly on a reserved-empty
    key and [Pop] exactly on an occupied key, whatever the value passed. *)
Theorem success_iff m k v :
  ((Add m k v).2.2 = None <-> values m !! k = None) /\
  ((Set_ m k v).2 = None <-> values m !! k = Some None) /\
  ((Pop m k).2.2 = None <-> exists x : V, values m !! k = Some (Some x)).
Proof.
  unfold_methods. destruct (values m !! k) as [[y |] |]; simpl;
    split_and!; split; try done; try (by intros [x ?]); by eauto.
Qed.

(** X3: [Add] of a non-nil value on an absent key followed by [Pop] of that
    key returns the value and gives back the manager as it was before. *)
Theorem Add_Pop_roundtrip m k (x : V) :
  values m !! k = None ->
  Pop (Add m k (Some x)).1 k = (m, (Some x, None)).
Proof.
  intros Hk. unfold_methods. rewrite Hk. simpl. rewrite lookup_insert_eq.
  simpl. f_equal. apply Manager_eq; simpl; [| done].
  rewrite delete_insert_eq. by apply delete_id.
Qed.

(** X4: on an absent key [Add] succeeds with any value, [nil] included, and
    the closure it returns, run on the manager [Add] left, gives back the
    manager as it was before. *)
Theorem Add_free_roundtrip m k v :
  values m !! k = None ->
  exists m1 free,
    Add m k v = (m1, (Some free, None)) /\ free m1 = m.
Proof.
  intros Hk. unfold_methods. rewrite Hk. simpl. eexists _, _. split; [done |].
  apply Manager_eq; simpl; [| done].
  rewrite delete_insert_eq. by apply delete_id.
Qed.

(** X5: [ReserveNextID] never issues the key the cursor is on.  So after a
    key was issued and released by its closure the table is as before the
    reservation while the cursor stays on that key, and the next
    [ReserveNextID] does not issue it again. *)
Theorem released_key_not_reissued m m1 k free :
  is_uint16 (lstID m) ->
  ReserveNextID m = Some (m1, (Some k, Some free, None)) ->
  k <> lstID m /\
  values (free m1) = values m /\
  lstID (free m1) = k /\
  (exists r, ReserveNextID (free m1) = Some r) /\
  (forall m2 (id : option Z) f e,
     ReserveNextID (free m1) = Some (m2, (id, f, e)) -> id <> Some k).
Proof.
  intros Hl Hr.
  destruct (ReserveNextID_success _ _ _ _ Hl Hr) as (Hk & -> & [= ->]).
  assert (Hk16 : is_uint16 k) by by eapply first_absent_uint16.
  split_and!.
  - by eapply first_absent_not_cursor.
  - simpl. rewrite delete_insert_eq.
    by apply delete_id, (first_absent_absent _ (lstID m)).
  - done.
  - set (m' := constructFreeFunc k _).
    destruct (ReserveNextID_cases m' Hk16) as [(k' & _ & ->) | (_ & ->)];
      by eauto.
  - intros m2 id f e Hr2.
    set (m' := constructFreeFunc k _) in *.
    destruct (ReserveNextID_cases m' Hk16) as [(k' & Hk' & Hr') | (_ & Hr')];
      rewrite Hr' in Hr2; simplify_eq; [| done].
    intros [= ->]. by apply (first_absent_not_cursor _ _ _ Hk16 Hk').
Qed.

(** X6: the life of a reserved key: after a successful [ReserveNextID], a
    [Set_] of a non-nil value on the issued key succeeds, [Get] then returns
    that value as found, and [Pop] returns it and leaves the table as it was
    before the reservation, with the cursor on the issued key. *)
Theorem reserve_set_get_pop m m1 k free (x : V) :
  is_uint16 (lstID m) ->
  ReserveNextID m = Some (m1, (Some k, free, None)) ->
  (Set_ m1 k (Some x)).2 = None /\
  Get (Set_ m1 k (Some x)).1 k = (Some x, true) /\
  (Pop (Set_ m1 k (Some x)).1 k).2 = (Some x, None) /\
  values (Pop (Set_ m1 k (Some x)).1 k).1 = values m /\
  lstID (Pop (Set_ m1 k (Some x)).1 k).1 = k.
Proof.
  intros Hl Hr.
  destruct (ReserveNextID_success _ _ _ _ Hl Hr) as (Hk & -> & _).
  apply first_absent_absent in Hk.
  unfold_methods. rewrite lookup_insert_eq. simpl.
  rewrite lookup_insert_eq. simpl. split_and!; try done.
  rewrite !delete_insert_eq. by apply delete_id.
Qed.

(** X7: a call touches no key but its own: [Add], [Set_], [Pop] and the
    release closure leave the entry of every key other than their argument
    as it was, and [ReserveNextID] leaves every key other than the one it
    issues as it was. *)
Theorem other_keys_untouched m id v k' :
  (k' <> id ->
     values (Add m id v).1 !! k' = values m !! k' /\
     values (Set_ m id v).1 !! k' = values m !! k' /\
     values (Pop m id).1 !! k' = values m !! k' /\
     values (constructFreeFunc id m) !! k' = values m !! k') /\
  (forall m' (key : option Z) f e,
     ReserveNextID m = Some (m', (key, f, e)) -> key <> Some k' ->
     values m' !! k' = values m !! k').
Proof.
  split.
  - intros Hne. unfold_methods.
    destruct (values m !! id) as [[y |] |]; simpl;
      rewrite ?lookup_insert_ne, ?lookup_delete_ne by done; done.
  - intros m' key f e. unfold ReserveNextID.
    destruct (scan _ _ _ _) as [nxtID |]; [| done].
    destruct (nxtID =? lstID m); intros [= <- <- <- <-] Hne; [done |].
    simpl. rewrite lookup_insert_ne; [done | congruence].
Qed.

(** X8: when the key after the cursor (0 after 65535) is absent,
    [ReserveNextID] issues exactly that key. *)
Theorem ReserveNextID_next_free m :
  is_uint16 (lstID m) ->
  values m !! wrap16 (lstID m + 1) = None ->
  ReserveNextID m =
    Some ({| values := <[wrap16 (lstID m + 1) := None]> (values m);
             lstID := wrap16 (lstID m + 1) |},
          (Some (wrap16 (lstID m + 1)),
           Some (constructFreeFunc (wrap16 (lstID m + 1))), None)).
Proof.
  intros Hl Hfree.
  destruct (ReserveNextID_cases m Hl)
    as [(k & (d & Hd & -> & Hnone & Hall) & Hr) | (Hall & _)].
  - destruct (decide (d = 1)) as [-> | Hd1]; [exact Hr |].
    destruct (Hall 1) as [y Hy]; [lia |].
    unfold key_after in Hy. congruence.
  - destruct (Hall 1) as [y Hy]; [lia |].
    unfold key_after in Hy. congruence.
Qed.

(** X14: [Add] of [nil] on an absent key reserves that key: until it is
    set, [Get] reports not-found and [Pop] fails with "value is not set";
    a [Set_] of a non-nil value then succeeds and [Get] returns it. *)
Theorem Add_nil_reserves m k (x : V) :
  values m !! k = None ->
  Get (Add m k None).1 k = (None, false) /\
  Pop (Add m k None).1 k = ((Add m k None).1, (None, Some (errValueNotSet k))) /\
  (Set_ (Add m k None).1 k (Some x)).2 = None /\
  Get (Set_ (Add m k None).1 k (Some x)).1 k = (Some x, true).
Proof.
  intros Hk. unfold_methods. rewrite Hk. simpl.
  rewrite !lookup_insert_eq. simpl. by rewrite lookup_insert_eq.
Qed.

(** X15: [ReserveNextID] succeeds exactly when some key other than the one
    the cursor is on is absent; an absent cursor key does not count. *)
Theorem ReserveNextID_succeeds_iff m :
  is_uint16 (lstID m) ->
  ((exists m' k f, ReserveNextID m = Some (m', (Some k, f, None))) <->
   (exists k, is_uint16 k /\ k <> lstID m /\ values m !! k = None)).
Proof.
  intros Hl.
  destruct (ReserveNextID_cases m Hl) as [(k & Hk & Hr) | (Hall & Hr)];
    rewrite Hr; split.
  - intros _. exists k. split_and!.
    + by eapply first_absent_uint16.
    + by eapply first_absent_not_cursor.
    + by eapply first_absent_absent.
  - intros _. by eexists _, _, _.
  - by intros (m' & k & f & ?).
  - intros (k & Hk16 & Hne & Hnone).
    destruct (scanned_keys (values m) (lstID m) Hl) as [Hkeys _].
    destruct (Hkeys Hall k Hk16 Hne) as [y Hy]. congruence.
Qed.

(** ** Consecutive reservations *)

Lemma key_after_add lst a b :
  key_after (key_after lst a) b = key_after lst (a + b).
Proof.
  unfold key_after, wrap16. rewrite Zplus_mod_idemp_l. f_equal. lia.
Qed.

Lemma key_after_0 lst : is_uint16 lst -> key_after lst 0 = lst.
Proof. intros Hl. unfold key_after. rewrite Z.add_0_r. by apply wrap16_id. Qed.

(** Increment counts less than 65536 apart reach distinct keys. *)
Lemma key_after_inj lst d1 d2 :
  -65536 < d1 - d2 < 65536 ->
  key_after lst d1 = key_after lst d2 -> d1 = d2.
Proof.
  unfold key_after, wrap16. intros Hd Heq.
  assert (Hm : (d1 - d2) mod 65536 = 0).
  { replace (d1 - d2) with ((lst + d1) - (lst + d2)) by lia.
    rewrite Zminus_mod, Heq, Z.sub_diag. done. }
  apply Z.mod_divide in Hm; [| lia]. destruct Hm as [q Hq]. lia.
Qed.

(** [n] reservations in a row over [n] absent keys. *)
Lemma run_reserve_consecutive (n : nat) : forall m,
  is_uint16 (lstID m) ->
  Z.of_nat n <= 65536 ->
  (forall i, 1 <= i <= Z.of_nat n ->
     values m !! key_after (lstID m) i = None) ->
  exists m' log,
    run m (replicate n OpReserveNextID) = Some (m', log) /\
    issued log = key_after (lstID m) <$> seqZ 1 (Z.of_nat n) /\
    lstID m' = key_after (lstID m) (Z.of_nat n) /\
    (forall k, k ∈ issued log -> values m' !! k = Some None) /\
    (forall k, k ∉ issued log -> values m' !! k = values m !! k).
Proof.
  induction n as [| n IH]; intros m Hl Hn Hfree.
  - exists m, []. simpl. split_and!; try done.
    + by rewrite key_after_0.
    + intros k Hk. by apply not_elem_of_nil in Hk.
  - set (k1 := key_after (lstID m) 1).
    assert (Hr : ReserveNextID m =
      Some ({| values := <[k1 := None]> (values m); lstID := k1 |},
            (Some k1, Some (constructFreeFunc k1), None))).
    { destruct (ReserveNextID_cases m Hl)
        as [(k & (d & Hd & -> & Hnone & Hall) & Hr) | (Hall & _)].
      - destruct (decide (d = 1)) as [-> | Hd1]; [exact Hr |].
        destruct (Hall 1) as [y Hy]; [lia |].
        rewrite Hfree in Hy by lia. done.
      - destruct (Hall 1) as [y Hy]; [lia |].
        rewrite Hfree in Hy by lia. done. }
    set (m1 := {| values := <[k1 := None]> (values m); lstID := k1 |}) in *.
    destruct (IH m1) as (m' & log & Hrun & Hiss & Hcur & Hin & Hout).
    { apply wrap16_range. }
    { lia. }
    { intros i Hi. simpl. unfold k1. rewrite key_after_add.
      rewrite lookup_insert_ne; [apply Hfree; lia |].
      intros Heq. apply key_after_inj in Heq; lia. }
    exists m', ((OpReserveNextID, Issued k1) :: log).
    change (run m (replicate (S n) OpReserveNextID))
      with (run m (OpReserveNextID :: replicate n OpReserveNextID)).
    cbn [run exec]. rewrite Hr. cbn [run exec]. rewrite Hrun.
    assert (Hiss' : issued ((OpReserveNextID, Issued k1) :: log) =
                    k1 :: issued log) by done.
    rewrite Hiss'. split_and!.
    + done.
    + rewrite seqZ_cons by lia. rewrite fmap_cons. f_equal.
      rewrite Hiss. simpl.
      replace (Z.pred (Z.of_nat (S n))) with (Z.of_nat n) by lia.
      change (Z.succ 1) with (1 + 1).
      rewrite <- fmap_add_seqZ, <- list_fmap_compose.
      apply list_fmap_ext. intros j x _. simpl. unfold k1.
      by rewrite key_after_add.
    + rewrite Hcur. simpl. unfold k1. rewrite key_after_add. f_equal. lia.
    + intros k Hk. destruct (decide (k ∈ issued log)) as [Hk' | Hk'].
      * by apply Hin.
      * apply elem_of_cons in Hk as [-> | Hk]; [| done].
        rewrite (Hout k1 Hk'). simpl. apply lookup_insert_eq.
    + intros k Hk. apply not_elem_of_cons in Hk as [Hne Hk].
      rewrite (Hout k Hk). simpl. by rewrite lookup_insert_ne.
Qed.

(** X9: when the [n] keys after the cursor are absent (as on a fresh
    manager), [n] calls of [ReserveNextID] in a row all succeed and issue
    exactly these keys in increasing order, with wrap-around; the cursor
    ends on the last of them, the issued keys are reserved-empty and every
    other key is as it was.  After 65536 such calls, the last of which
    issues the key the cursor started on, one more call fails with
    [errNoMoreAvailableValues]. *)
Theorem reserve_run_consecutive (n : nat) m :
  is_uint16 (lstID m) ->
  Z.of_nat n <= 65536 ->
  (forall i, 1 <= i <= Z.of_nat n ->
     values m !! key_after (lstID m) i = None) ->
  exists m' log,
    run m (replicate n OpReserveNextID) = Some (m', log) /\
    issued log = key_after (lstID m) <$> seqZ 1 (Z.of_nat n) /\
    lstID m' = key_after (lstID m) (Z.of_nat n) /\
    (forall k, k ∈ issued log -> values m' !! k = Some None) /\
    (forall k, k ∉ issued log -> values m' !! k = values m !! k) /\
    (Z.of_nat n = 65536 ->
       ReserveNextID m' =
         Some (m', (None, None, Some errNoMoreAvailableValues))).
Proof.
  intros Hl Hn Hfree.
  destruct (run_reserve_consecutive n m Hl Hn Hfree)
    as (m' & log & Hrun & Hiss & Hcur & Hin & Hout).
  exists m', log. split_and!; try done.
  intros Hfull.
  assert (Hl' : is_uint16 (lstID m')).
  { rewrite Hcur. apply wrap16_range. }
  destruct (ReserveNextID_cases m' Hl') as [(k & Hk & _) | (_ & Hr)];
    [| exact Hr].
  assert (Hk16 : is_uint16 k) by by eapply first_absent_uint16.
  apply first_absent_absent in Hk.
  assert (Hd : exists d, 1 <= d <= 65536 /\ k = key_after (lstID m) d).
  { destruct (decide (k = lstID m)) as [-> | Hne].
    - exists 65536. split; [lia |]. by rewrite key_after_full.
    - destruct (key_after_surj (lstID m) k Hl Hk16 Hne) as (d & Hd & ->).
      exists d. split; [lia | done]. }
  destruct Hd as (d & Hd & ->).
  rewrite Hin in Hk; [done |].
  rewrite Hiss. apply list_elem_of_fmap. exists d. split; [done |].
  apply elem_of_seqZ. lia.
Qed.

(** ** [DoRange] *)

Section range.

Context {St : Type}.

Implicit Types (next : St -> Z -> option V -> St * bool) (s : St).
Implicit Types (entries order : list (Z * option V)).

(** The entries the visitor was called on are an initial segment of the
    entries in iteration order. *)
Lemma rangeLoop_prefix next entries : forall s,
  (rangeLoop next s entries).2.*1 `prefix_of` entries.
Proof.
  induction entries as [| [id v] rest IH]; intros s; simpl; [done |].
  destruct (next s id v) as [s1 [|]]; simpl.
  - specialize (IH s1). destruct (rangeLoop next s1 rest) as [s2 calls].
    simpl in *. by apply (prefix_app [(id, v)]).
  - apply (prefix_app [(id, v)] []). apply prefix_nil.
Qed.

(** Only the last call can have returned false, and it did if an entry was
    left out. *)
Lemma rangeLoop_stop next entries : forall s,
  (forall (i : nat) c, (rangeLoop next s entries).2 !! i = Some c ->
     (S i < length (rangeLoop next s entries).2)%nat -> c.2 = true) /\
  ((length (rangeLoop next s entries).2 < length entries)%nat ->
     exists c, list.last (rangeLoop next s entries).2 = Some c /\ c.2 = false).
Proof.
  induction entries as [| [id v] rest IH]; intros s; simpl.
  - split; [intros i c Hc; by destruct i | lia].
  - destruct (next s id v) as [s1 [|]]; simpl.
    + destruct (IH s1) as [Hall Hlast].
      destruct (rangeLoop next s1 rest) as [s2 calls]. simpl in *. split.
      * intros [| i] c Hc Hi; simpl in *; [by simplify_eq |].
        apply (Hall i c Hc). lia.
      * intros Hlen. destruct Hlast as (c & Hc & Hf); [lia |].
        exists c. split; [| done].
        destruct calls as [| c' calls]; [done |]. by rewrite list.last_cons_cons.
    + split.
      * intros [| i] c Hc Hi; simpl in *; [lia | by destruct i].
      * intros _. by eexists.
Qed.

(** A visitor that never returns false is called on every entry. *)
Lemma rangeLoop_all next entries :
  (forall s id v, (next s id v).2 = true) ->
  forall s, (rangeLoop next s entries).2.*1 = entries.
Proof.
  intros Htrue. induction entries as [| [id v] rest IH]; intros s; simpl;
    [done |].
  specialize (Htrue s id v). destruct (next s id v) as [s1 b].
  simpl in Htrue. subst b. simpl. specialize (IH s1).
  destruct (rangeLoop next s1 rest) as [s2 calls]. simpl in *. by f_equal.
Qed.

(** X10: whatever the iteration order, [DoRange] calls the visitor only on
    entries of the table, reserved-empty ones included, and on no key twice;
    with a visitor that never returns false it calls it on every entry
    exactly once. *)
Theorem DoRange_visits m next s r :
  DoRange m next s r ->
  (forall id v b, (id, v, b) ∈ r.2 -> values m !! id = Some v) /\
  NoDup (r.2.*1.*1) /\
  ((forall s' id v, (next s' id v).2 = true) ->
     r.2.*1 ≡ₚ map_to_list (values m) /\
     forall id v, values m !! id = Some v -> (id, v, true) ∈ r.2).
Proof.
  intros (order & Hperm & ->).
  destruct (rangeLoop_prefix next order s) as [rest Hrest].
  assert (Hnd : NoDup (order.*1)).
  { rewrite Hperm. apply NoDup_fst_map_to_list. }
  split_and!.
  - intros id v b Hin. apply elem_of_map_to_list. rewrite <- Hperm, Hrest.
    apply elem_of_app. left.
    apply (list_elem_of_fmap_2 fst) in Hin. done.
  - rewrite Hrest, fmap_app in Hnd. by apply list.NoDup_app in Hnd as [? _].
  - intros Htrue. rewrite (rangeLoop_all next order Htrue). split; [done |].
    intros id v Hlook. apply elem_of_map_to_list in Hlook.
    rewrite <- Hperm, <- (rangeLoop_all next order Htrue s) in Hlook.
    apply list_elem_of_fmap in Hlook as ([[id' v'] b] & [= <- <-] & Hin).
    apply list_elem_of_lookup in Hin as [i Hi].
    assert (b = true) as ->; [| by eapply list_elem_of_lookup_2].
    clear -Htrue Hi. revert s i Hi.
    induction order as [| [id0 v0] rest IH]; intros s i Hi; simpl in Hi;
      [by destruct i |].
    pose proof (Htrue s id0 v0) as Hn. destruct (next s id0 v0) as [s1 b0].
    simpl in Hn. subst b0. simpl in Hi.
    destruct (rangeLoop next s1 rest) as [s2 calls] eqn:Hloop. simpl in Hi.
    destruct i as [| i]; simpl in Hi; [by simplify_eq |].
    apply (IH s1 i). by rewrite Hloop.
Qed.

(** X11: [DoRange] stops at the first false: every call of the visitor but
    the last returned true, and when fewer calls were made than the table
    has entries the last call returned false.  On an empty table the
    visitor is not called at all. *)
Theorem DoRange_stops m next s r :
  DoRange m next s r ->
  (forall (i : nat) c, r.2 !! i = Some c -> (S i < length r.2)%nat ->
     c.2 = true) /\
  ((length r.2 < size (values m))%nat ->
     exists c, list.last r.2 = Some c /\ c.2 = false) /\
  (values m = ∅ -> r = (s, [])).
Proof.
  intros (order & Hperm & ->).
  destruct (rangeLoop_stop next order s) as [Hall Hlast]. split_and!.
  - exact Hall.
  - intros Hlen. apply Hlast.
    apply Permutation_length in Hperm.
    rewrite length_map_to_list in Hperm. by rewrite Hperm.
  - intros Hempty. rewrite Hempty, map_to_list_empty in Hperm.
    apply Permutation_nil_r in Hperm. by subst order.
Qed.

End range.

(** ** Calls on different keys *)

(** X12: two calls among [Pop], [Add], [Set_], [Get] and a release closure
    that name different keys commute: in either order each call returns the
    same result and the manager ends in the same state. *)
Theorem calls_on_distinct_keys_commute m (o1 o2 : keyop V) :
  key_of o1 <> key_of o2 ->
  (call (call m o1).1 o2).1 = (call (call m o2).1 o1).1 /\
  (call (call m o2).1 o1).2 = (call m o1).2 /\
  (call (call m o1).1 o2).2 = (call m o2).2.
Proof.
  intros Hne.
  destruct o1 as [k1 | k1 v1 | k1 v1 | k1 | k1],
           o2 as [k2 | k2 v2 | k2 v2 | k2 | k2];
    simpl in Hne; unfold call; unfold_methods;
    destruct (values m !! k1) as [[y1 |] |] eqn:H1;
    destruct (values m !! k2) as [[y2 |] |] eqn:H2; simpl;
    rewrite ?lookup_insert_ne, ?lookup_delete_ne by done;
    rewrite ?H1, ?H2; simpl;
    (split_and!; [| done | done]);
    try done; f_equal;
    first [ by apply insert_insert_ne
          | by apply delete_delete
          | by apply delete_insert_ne
          | (symmetry; by apply delete_insert_ne) ].
Qed.

(** ** Keys stay in range *)

Lemma exec_well_typed m o :
  well_typed m ->
  (forall k, target o = Some k -> is_uint16 k) ->
  exists m1 ev, exec m o = Some (m1, ev) /\ well_typed m1.
Proof.
  intros [Hl Hkeys] Hk. destruct o as [| id | id v | id v | id | id]; simpl.
  - destruct (ReserveNextID_cases m Hl) as [(k & Hfa & Hr) | (_ & Hr)];
      rewrite Hr; eexists _, _; (split; [done |]); [| done].
    assert (is_uint16 k) by by eapply first_absent_uint16.
    split; [done |]. simpl. intros k' [y Hy].
    destruct (decide (k = k')) as [<- |]; [done |].
    rewrite lookup_insert_ne in Hy by done. by eauto.
  - unfold_methods. destruct (values m !! id) as [[y |] |] eqn:Hid; simpl;
      eexists _, _; (split; [done |]); [| done | done].
    split; [done |]. simpl. intros k' [y' Hy'].
    destruct (decide (id = k')) as [<- |].
    + by rewrite lookup_delete_eq in Hy'.
    + rewrite lookup_delete_ne in Hy' by done. by eauto.
  - eexists _, _. split; [done |]. unfold_methods.
    destruct (values m !! id) as [y |] eqn:Hid; simpl; [done |].
    split; [done |]. simpl. intros k' [y' Hy'].
    destruct (decide (id = k')) as [<- |]; [by apply Hk |].
    rewrite lookup_insert_ne in Hy' by done. by eauto.
  - eexists _, _. split; [done |]. unfold_methods.
    destruct (values m !! id) as [[y |] |] eqn:Hid; simpl; [done | | done].
    split; [done |]. simpl. intros k' [y' Hy'].
    destruct (decide (id = k')) as [<- |]; [by apply Hk |].
    rewrite lookup_insert_ne in Hy' by done. by eauto.
  - by eexists _, _.
  - eexists _, _. split; [done |]. split; [done |]. simpl.
    intros k' [y' Hy']. destruct (decide (id = k')) as [<- |].
    + by rewrite lookup_delete_eq in Hy'.
    + rewrite lookup_delete_ne in Hy' by done. by eauto.
Qed.

(** A table whose keys are all [uint16] has at most 65536 entries. *)
Lemma well_typed_size m :
  well_typed m -> Z.of_nat (size (values m)) <= 65536.
Proof.
  intros [_ Hkeys].
  assert (Hsub : dom (values m) ⊆ (list_to_set (seqZ 0 65536) : gset Z)).
  { intros k Hk. apply elem_of_dom in Hk. apply Hkeys in Hk.
    apply elem_of_list_to_set, elem_of_seqZ. unfold is_uint16 in Hk. lia. }
  apply subseteq_size in Hsub.
  rewrite size_dom in Hsub.
  rewrite size_list_to_set in Hsub by apply NoDup_seqZ.
  rewrite length_seqZ in Hsub. lia.
Qed.

(** X13: starting from a manager whose cursor and keys are [uint16] values
    (a fresh one, for instance), every run of calls with [uint16] arguments
    returns and ends in such a manager; its table never holds more than
    65536 entries. *)
Theorem run_well_typed ops : forall m,
  well_typed m ->
  (forall o k, o ∈ ops -> target o = Some k -> is_uint16 k) ->
  exists m' log,
    run m ops = Some (m', log) /\
    well_typed m' /\
    Z.of_nat (size (values m')) <= 65536.
Proof.
  induction ops as [| o ops IH]; intros m Hwt Hargs.
  - exists m, []. split_and!; [done | done | by apply well_typed_size].
  - destruct (exec_well_typed m o Hwt) as (m1 & ev & He & Hwt1).
    { intros k. apply Hargs. by left. }
    destruct (IH m1 Hwt1) as (m' & log & Hr & Hwt' & Hsize).
    { intros o' k Ho'. apply Hargs. by right. }
    exists m', ((o, ev) :: log). simpl. rewrite He, Hr. done.
Qed.

End more_properties.

(** * The further properties on sample managers *)

Lemma Get_found_iff_witness :
  values occupiedOne !! 1 = Some (Some 5%nat) /\
  Get occupiedOne 1 = (Some 5%nat, true) /\
  (Get occupiedOne 1).2 = true.
Proof.
  assert (H : values occupiedOne !! 1 = Some (Some 5%nat)) by reflexivity.
  destruct (Get_found_iff occupiedOne 1) as [Hval Hfound].
  split_and!; [exact H | by apply Hval | apply Hfound; by eexists].
Defined.

Lemma success_iff_witness :
  (values (New (V:=nat)) !! 1 = None /\ (Add New 1 (Some 3%nat)).2.2 = None) /\
  (values reservedOne !! 1 = Some None /\
   (Set_ reservedOne 1 (Some 3%nat)).2 = None) /\
  (values occupiedOne !! 1 = Some (Some 5%nat) /\ (Pop occupiedOne 1).2.2 = None) /\
  ((Add occupiedOne 1 (Some 3%nat)).2.2 = Some errValueAlreadyExists /\
   values occupiedOne !! 1 <> None).
Proof.
  assert (H1 : values (New (V:=nat)) !! 1 = None) by reflexivity.
  assert (H2 : values reservedOne !! 1 = Some None) by reflexivity.
  assert (H3 : values occupiedOne !! 1 = Some (Some 5%nat)) by reflexivity.
  assert (H4 : (Add occupiedOne 1 (Some 3%nat)).2.2 =
               Some errValueAlreadyExists) by reflexivity.
  destruct (success_iff (New (V:=nat)) 1 (Some 3%nat)) as ([_ Hadd] & _ & _).
  destruct (success_iff reservedOne 1 (Some 3%nat)) as (_ & [_ Hset] & _).
  destruct (success_iff occupiedOne 1 (Some 3%nat)) as ([_ Hadd'] & _ & [_ Hpop]).
  split_and!;
    [exact H1 | exact (Hadd H1) | exact H2 | exact (Hset H2) | exact H3
    | apply Hpop; by eexists | exact H4 |].
  intros Habs. apply Hadd' in Habs. rewrite H4 in Habs. discriminate.
Defined.

Lemma Add_Pop_roundtrip_witness :
  values (New (V:=nat)) !! 1 = None /\
  Pop (Add New 1 (Some 5%nat)).1 1 = (New, (Some 5%nat, None)).
Proof.
  assert (H : values (New (V:=nat)) !! 1 = None) by reflexivity.
  split; [exact H | exact (Add_Pop_roundtrip New 1 5%nat H)].
Defined.

Lemma Add_free_roundtrip_witness :
  values reservedOne !! 2 = None /\
  exists m1 free,
    Add reservedOne 2 None = (m1, (Some free, None)) /\ free m1 = reservedOne.
Proof.
  assert (H : values reservedOne !! 2 = None) by reflexivity.
  split; [exact H | exact (Add_free_roundtrip reservedOne 2 None H)].
Defined.

Lemma New_reserves_1 :
  ReserveNextID (New (V:=nat)) =
    Some (reservedOne, (Some 1, Some (constructFreeFunc 1), None)).
Proof. vm_compute. reflexivity. Qed.

Lemma released_key_not_reissued_witness :
  is_uint16 (lstID (New (V:=nat))) /\
  ReserveNextID (New (V:=nat)) =
    Some (reservedOne, (Some 1, Some (constructFreeFunc 1), None)) /\
  values (constructFreeFunc 1 reservedOne) = values New /\
  lstID (constructFreeFunc 1 reservedOne) = 1 /\
  ReserveNextID (constructFreeFunc 1 reservedOne) =
    Some ({| values := {[ 2 := None ]}; lstID := 2 |},
          (Some 2, Some (constructFreeFunc 2), None)) /\
  Some 2 <> Some 1.
Proof.
  assert (Hnext : ReserveNextID (constructFreeFunc 1 reservedOne) =
    Some ({| values := {[ 2 := None ]}; lstID := 2 |},
          (Some 2, Some (constructFreeFunc 2), None))).
  { vm_compute. reflexivity. }
  destruct (released_key_not_reissued New reservedOne 1 (constructFreeFunc 1)
              uint16_0 New_reserves_1) as (_ & Hvals & Hcur & _ & Hnot).
  split_and!;
    [exact uint16_0 | exact New_reserves_1 | exact Hvals | exact Hcur
    | exact Hnext | exact (Hnot _ _ _ _ Hnext)].
Defined.

Lemma reserve_set_get_pop_witness :
  is_uint16 (lstID (New (V:=nat))) /\
  ReserveNextID (New (V:=nat)) =
    Some (reservedOne, (Some 1, Some (constructFreeFunc 1), None)) /\
  Get (Set_ reservedOne 1 (Some 8%nat)).1 1 = (Some 8%nat, true) /\
  (Pop (Set_ reservedOne 1 (Some 8%nat)).1 1).2 = (Some 8%nat, None).
Proof.
  destruct (reserve_set_get_pop New reservedOne 1 _ 8%nat
              uint16_0 New_reserves_1) as (_ & Hget & Hpop & _).
  split_and!; [exact uint16_0 | exact New_reserves_1 | exact Hget | exact Hpop].
Defined.

Lemma other_keys_untouched_witness :
  (2 : Z) <> 1 /\
  values (Pop occupiedOne 2).1 !! 1 = Some (Some 5%nat) /\
  values (Add occupiedOne 2 (Some 6%nat)).1 !! 1 = Some (Some 5%nat) /\
  values reservedOne !! 2 = values (New (V:=nat)) !! 2.
Proof.
  assert (Hne : (1 : Z) <> 2) by lia.
  assert (Hne' : (2 : Z) <> 1) by lia.
  destruct (other_keys_untouched occupiedOne 2 (Some 6%nat) 1) as [Hframe _].
  destruct (Hframe Hne) as (Hadd & _ & Hpop & _).
  destruct (other_keys_untouched (New (V:=nat)) 0 None 2) as [_ Hres].
  split_and!; [exact Hne' | by rewrite Hpop | by rewrite Hadd |].
  apply (Hres _ _ _ _ New_reserves_1). discriminate.
Defined.

Lemma Add_nil_reserves_witness :
  values (New (V:=nat)) !! 4 = None /\
  (Set_ (Add New 4 None).1 4 (Some 9%nat)).2 = None /\
  Get (Set_ (Add New 4 None).1 4 (Some 9%nat)).1 4 = (Some 9%nat, true).
Proof.
  assert (H : values (New (V:=nat)) !! 4 = None) by reflexivity.
  destruct (Add_nil_reserves New 4 9%nat H) as (_ & _ & Hset & Hget).
  split_and!; [exact H | exact Hset | exact Hget].
Defined.

Lemma ReserveNextID_succeeds_iff_witness :
  is_uint16 (lstID cursorOnlyFree) /\
  values cursorOnlyFree !! lstID cursorOnlyFree = None /\
  ~ (exists k, is_uint16 k /\ k <> lstID cursorOnlyFree /\
               values cursorOnlyFree !! k = None) /\
  (exists k, is_uint16 k /\ k <> lstID (New (V:=nat)) /\
             values (New (V:=nat)) !! k = None) /\
  (exists m' k f, ReserveNextID (New (V:=nat)) = Some (m', (Some k, f, None))).
Proof.
  destruct cursor_key_not_examined as [Hcur Hfail].
  destruct (ReserveNextID_succeeds_iff cursorOnlyFree uint16_0) as [_ Hback].
  destruct (ReserveNextID_succeeds_iff (New (V:=nat)) uint16_0) as [_ Hnew].
  assert (Hfree : exists k, is_uint16 k /\ k <> lstID (New (V:=nat)) /\
                            values (New (V:=nat)) !! k = None).
  { exists 1. split_and!; [unfold is_uint16; lia | discriminate | reflexivity]. }
  split_and!; [exact uint16_0 | exact Hcur | | exact Hfree | exact (Hnew Hfree)].
  intros Hex. destruct (Hback Hex) as (m' & k & f & Hr).
  rewrite Hfail in Hr. discriminate.
Defined.

Lemma ReserveNextID_next_free_witness :
  is_uint16 (lstID cursorAtMax) /\
  values cursorAtMax !! wrap16 (lstID cursorAtMax + 1) = None /\
  ReserveNextID cursorAtMax =
    Some ({| values := {[ 0 := None ]}; lstID := 0 |},
          (Some 0, Some (constructFreeFunc 0), None)).
Proof.
  assert (Hl : is_uint16 (lstID cursorAtMax)).
  { unfold is_uint16. simpl. lia. }
  assert (H : values cursorAtMax !! wrap16 (lstID cursorAtMax + 1) = None)
    by reflexivity.
  split_and!; [exact Hl | exact H | exact (ReserveNextID_next_free _ Hl H)].
Defined.

Lemma reserve_run_consecutive_witness :
  is_uint16 (lstID (New (V:=nat))) /\
  (exists m' log,
     run (New (V:=nat)) (replicate 3 OpReserveNextID) = Some (m', log) /\
     issued log = [1; 2; 3] /\
     lstID m' = 3) /\
  (exists m' log,
     run (New (V:=nat)) (replicate (Z.to_nat 65536) OpReserveNextID) =
       Some (m', log) /\
     ReserveNextID m' =
       Some (m', (None, None, Some errNoMoreAvailableValues))).
Proof.
  assert (Hfree : forall i : Z,
    values (New (V:=nat)) !! key_after (lstID (New (V:=nat))) i = None).
  { intros i. reflexivity. }
  split_and!; [exact uint16_0 | |].
  - destruct (reserve_run_consecutive 3 (New (V:=nat)) uint16_0)
      as (m' & log & Hrun & Hiss & Hcur & _).
    + simpl. lia.
    + intros i _. apply Hfree.
    + exists m', log. split_and!; [exact Hrun | exact Hiss | exact Hcur].
  - destruct (reserve_run_consecutive (Z.to_nat 65536) (New (V:=nat)) uint16_0)
      as (m' & log & Hrun & _ & _ & _ & _ & Hfull).
    + lia.
    + intros i _. apply Hfree.
    + exists m', log. split; [exact Hrun |]. apply Hfull. lia.
Defined.

Lemma threeEntries_order :
  map_to_list (values threeEntries) ≡ₚ map_to_list (values threeEntries).
Proof. reflexivity. Qed.

Lemma DoRange_visits_witness :
  exists r,
    DoRange threeEntries collectKeys [] r /\
    r.2.*1 ≡ₚ map_to_list (values threeEntries) /\
    (1, None, true) ∈ r.2 /\
    values threeEntries !! 1 = Some None.
Proof.
  set (r := rangeLoop collectKeys [] (map_to_list (values threeEntries))).
  assert (Hr : DoRange threeEntries collectKeys [] r).
  { exists (map_to_list (values threeEntries)).
    split; [exact threeEntries_order | reflexivity]. }
  destruct (DoRange_visits threeEntries collectKeys [] r Hr)
    as (Hentry & _ & Hall).
  destruct Hall as [Hperm Hin]; [intros; reflexivity |].
  assert (H1 : (1, None, true) ∈ r.2) by (apply Hin; reflexivity).
  exists r. split_and!; [exact Hr | exact Hperm | exact H1 | exact (Hentry _ _ _ H1)].
Defined.

Lemma DoRange_stops_witness :
  (exists r,
     DoRange threeEntries stopAtSecond 0%nat r /\
     (length r.2 < size (values threeEntries))%nat /\
     (exists c, r.2 !! 0%nat = Some c /\ c.2 = true) /\
     (exists c, list.last r.2 = Some c /\ c.2 = false)) /\
  (values (New (V:=nat)) = ∅ /\
   DoRange New stopAtSecond 0%nat (0%nat, [])).
Proof.
  split.
  - set (r := rangeLoop stopAtSecond 0%nat (map_to_list (values threeEntries))).
    assert (Hr : DoRange threeEntries stopAtSecond 0%nat r).
    { exists (map_to_list (values threeEntries)).
      split; [exact threeEntries_order | reflexivity]. }
    assert (Hlen : (length r.2 < size (values threeEntries))%nat).
    { vm_compute. lia. }
    assert (Hfirst : exists c, r.2 !! 0%nat = Some c).
    { eexists. vm_compute. reflexivity. }
    assert (Hlen1 : (1 < length r.2)%nat).
    { vm_compute. lia. }
    destruct (DoRange_stops threeEntries stopAtSecond 0%nat r Hr)
      as (Hbefore & Hlast & _).
    destruct Hfirst as [c Hc].
    exists r. split_and!; [exact Hr | exact Hlen | | exact (Hlast Hlen)].
    exists c. split; [exact Hc | exact (Hbefore 0%nat c Hc Hlen1)].
  - assert (Hempty : values (New (V:=nat)) = ∅) by reflexivity.
    assert (Hr : DoRange New stopAtSecond 0%nat
                   (rangeLoop stopAtSecond 0%nat (map_to_list (values New)))).
    { exists (map_to_list (values (New (V:=nat)))). split; reflexivity. }
    destruct (DoRange_stops New stopAtSecond 0%nat _ Hr) as (_ & _ & Hnone).
    split; [exact Hempty |]. rewrite <- (Hnone Hempty). exact Hr.
Defined.

Lemma calls_on_distinct_keys_commute_witness :
  key_of (KPop (V:=nat) 1) <> key_of (KAdd 2 (Some 6%nat)) /\
  (call (call occupiedOne (KPop 1)).1 (KAdd 2 (Some 6%nat))).1 =
  (call (call occupiedOne (KAdd 2 (Some 6%nat))).1 (KPop 1)).1.
Proof.
  assert (Hne : key_of (KPop (V:=nat) 1) <> key_of (KAdd 2 (Some 6%nat))).
  { simpl. lia. }
  destruct (calls_on_distinct_keys_commute occupiedOne _ _ Hne) as (Hst & _).
  split; [exact Hne | exact Hst].
Defined.

Lemma New_well_typed : well_typed (New (V:=nat)).
Proof.
  split; [exact uint16_0 |]. simpl. intros k [x Hx].
  by rewrite lookup_empty in Hx.
Qed.

Lemma sampleOps_uint16 o k :
  o ∈ sampleOps -> target o = Some k -> is_uint16 k.
Proof.
  unfold sampleOps. intros Ho Ht.
  repeat (apply elem_of_cons in Ho as [-> | Ho]);
    try (by apply not_elem_of_nil in Ho);
    simpl in Ht; simplify_eq; unfold is_uint16; lia.
Qed.

Lemma run_well_typed_witness :
  well_typed (New (V:=nat)) /\
  exists m' log,
    run New sampleOps = Some (m', log) /\
    well_typed m' /\
    Z.of_nat (size (values m')) <= 65536.
Proof.
  split; [exact New_well_typed |].
  exact (run_well_typed sampleOps New New_well_typed sampleOps_uint16).
Defined.
